(** * LocalVideoTrack: lifetime and attachment protocol

    A shallow embedding of
    [libs/Microsoft.MixedReality.WebRTC.Native/src/local_video_track.cpp].

    The adapter object is a record of its four data members.  Its methods are
    programs of a small state-and-abort monad over a machine made of the
    object's members, the engine-side enable flag of every track, and the
    sequence of calls made on the collaborators (track, engine peer
    connection, owning peer connection) in the order they were made. *)

From Stdlib Require Import List PeanoNat Bool.
Import ListNotations.

Set Implicit Arguments.

(** ** References

    A C++ pointer (raw or [rtc::scoped_refptr]) is an [option] of the address
    it holds: [None] is [nullptr]. *)

Definition TrackRef := nat.    (* webrtc::VideoTrackInterface object *)
Definition SenderRef := nat.   (* webrtc::RtpSenderInterface object *)
Definition OwnerRef := nat.    (* PeerConnection object, the owner *)
Definition PeerRef := nat.     (* webrtc::PeerConnectionInterface object *)
Definition SinkRef := nat.     (* address of the adapter, [this] *)
Definition mrsLocalVideoTrackInteropHandle := option nat.   (* void* *)

(** Modelled from the spec: [rtc::VideoSinkWants] is declared by the engine;
    the configuration "carries at minimum a rotation already applied flag",
    the only member the source names. *)
Record VideoSinkWants := { rotation_applied : bool }.

(** [rtc::VideoSinkWants sink_settings{}]: value initialisation. *)
Definition VideoSinkWants_init : VideoSinkWants :=
  {| rotation_applied := false |}.

Definition set_rotation_applied (b : bool) (_ : VideoSinkWants) : VideoSinkWants :=
  {| rotation_applied := b |}.

(** ** The adapter's data members *)

Record LocalVideoTrack := {
  owner_ : option OwnerRef;
  track_ : option TrackRef;
  sender_ : option SenderRef;
  interop_handle_ : mrsLocalVideoTrackInteropHandle
}.

Definition with_owner (o : option OwnerRef) (a : LocalVideoTrack) :=
  {| owner_ := o; track_ := track_ a; sender_ := sender_ a;
     interop_handle_ := interop_handle_ a |}.

Definition with_sender (s : option SenderRef) (a : LocalVideoTrack) :=
  {| owner_ := owner_ a; track_ := track_ a; sender_ := s;
     interop_handle_ := interop_handle_ a |}.

(** ** Calls on collaborators

    Every call the adapter makes on a collaborator is recorded, except the
    const query [enabled()] of the track, which only reads the engine's
    enable flag. *)

Inductive Call :=
| TrackAddOrUpdateSink (t : TrackRef) (sink : SinkRef) (wants : VideoSinkWants)
| TrackRemoveSink (t : TrackRef) (sink : SinkRef)
| TrackSetEnabled (t : TrackRef) (enabled : bool)
| PeerRemoveTrack (peer : PeerRef) (sender : SenderRef)
| OwnerRemoveLocalVideoTrack (owner : OwnerRef) (video_track : SinkRef).

Definition is_PeerRemoveTrack (c : Call) : bool :=
  match c with PeerRemoveTrack _ _ => true | _ => false end.

Definition is_OwnerRemoveLocalVideoTrack (c : Call) : bool :=
  match c with OwnerRemoveLocalVideoTrack _ _ => true | _ => false end.

Definition is_TrackAddOrUpdateSink (c : Call) : bool :=
  match c with TrackAddOrUpdateSink _ _ _ => true | _ => false end.

Definition is_TrackRemoveSink (c : Call) : bool :=
  match c with TrackRemoveSink _ _ => true | _ => false end.

Definition count (p : Call -> bool) (l : list Call) : nat :=
  length (filter p l).

(** ** The machine *)

(** Modelled from the spec: the engine's track is not part of the repository;
    its contract is an enable state read by [enabled()] and written by
    [set_enabled(bool)].  [enabled_flag] is that state, per track. *)
Definition EnabledFlags := TrackRef -> bool.

Definition set_flag (t : TrackRef) (b : bool) (f : EnabledFlags) : EnabledFlags :=
  fun t' => if Nat.eqb t' t then b else f t'.

Record World := {
  enabled_flag : EnabledFlags;
  trace : list Call
}.

Record Machine := {
  self : LocalVideoTrack;
  world : World
}.

Inductive Outcome (A : Type) :=
| Done (a : A) (m : Machine)     (* the call returned [a] *)
| Fatal (m : Machine)            (* an RTC_CHECK failed: the process aborted *)
| Undefined.                     (* a null pointer was dereferenced *)

Arguments Fatal {A} m.
Arguments Undefined {A}.

Definition M (A : Type) := Machine -> Outcome A.

Definition ret {A} (a : A) : M A := fun m => Done a m.

Definition bind {A B} (c : M A) (k : A -> M B) : M B :=
  fun m =>
    match c m with
    | Done a m' => k a m'
    | Fatal m' => Fatal m'
    | Undefined => Undefined
    end.

Declare Scope prog_scope.
Delimit Scope prog_scope with prog.
Notation "x <- c ;; k" := (bind c (fun x => k))
  (at level 61, c at next level, right associativity) : prog_scope.
Notation "c ;; k" := (bind c (fun _ => k))
  (at level 61, right associativity) : prog_scope.
Open Scope prog_scope.

(** [RTC_CHECK(c)]: fatal, in every build configuration, when [c] is false. *)
Definition RTC_CHECK (c : bool) : M unit :=
  fun m => if c then Done tt m else Fatal m.

(** [p->...]: the pointee of a pointer. *)
Definition deref {A} (p : option A) : M A :=
  fun m => match p with Some x => Done x m | None => Undefined end.

Definition is_set {A} (p : option A) : bool :=
  match p with Some _ => true | None => false end.

Definition get {A} (field : LocalVideoTrack -> A) : M A :=
  fun m => Done (field (self m)) m.

Definition modify (f : LocalVideoTrack -> LocalVideoTrack) : M unit :=
  fun m => Done tt {| self := f (self m); world := world m |}.

Definition log (c : Call) (w : World) : World :=
  {| enabled_flag := enabled_flag w; trace := trace w ++ [c] |}.

Definition call (c : Call) : M unit :=
  fun m => Done tt {| self := self m; world := log c (world m) |}.

(** *** webrtc::VideoTrackInterface *)

Definition AddOrUpdateSink (t : TrackRef) (sink : SinkRef) (wants : VideoSinkWants)
  : M unit :=
  call (TrackAddOrUpdateSink t sink wants).

Definition RemoveSink (t : TrackRef) (sink : SinkRef) : M unit :=
  call (TrackRemoveSink t sink).

Definition enabled (t : TrackRef) : M bool :=
  fun m => Done (enabled_flag (world m) t) m.

Definition set_enabled (t : TrackRef) (b : bool) : M unit :=
  fun m =>
    Done tt {| self := self m;
               world := {| enabled_flag := set_flag t b (enabled_flag (world m));
                           trace := trace (world m) ++ [TrackSetEnabled t b] |} |}.

(** *** webrtc::PeerConnectionInterface *)

Definition RemoveTrack (peer : PeerRef) (sender : SenderRef) : M unit :=
  call (PeerRemoveTrack peer sender).

(** *** PeerConnection, the owner

    [PeerConnection::RemoveLocalVideoTrack] is defined in another translation
    unit.  It receives the adapter by reference, so it may change the
    adapter's members; it may change the engine's state; and it makes calls
    of its own; it is taken to return.  An implementation is any function of
    this type. *)
Class PeerConnection := {
  RemoveLocalVideoTrack_impl :
    OwnerRef -> SinkRef -> LocalVideoTrack -> EnabledFlags ->
    list Call * LocalVideoTrack * EnabledFlags
}.

Definition RemoveLocalVideoTrack `{PeerConnection}
  (owner : OwnerRef) (video_track : SinkRef) : M unit :=
  fun m =>
    let '(calls, a, fl) :=
      RemoveLocalVideoTrack_impl owner video_track (self m)
        (enabled_flag (world m)) in
    Done tt
      {| self := a;
         world :=
           {| enabled_flag := fl;
              trace := trace (world m)
                       ++ OwnerRemoveLocalVideoTrack owner video_track :: calls |} |}.

(** Modelled from the spec: the owner's contract, "remove-local-video-track
    (adapter) ... must clear the Adapter's back-reference to itself". *)
Definition contract_PeerConnection : PeerConnection :=
  {| RemoveLocalVideoTrack_impl :=
       fun _ _ a fl => ([], with_owner None a, fl) |}.

(** An owner that breaks the contract: it leaves the adapter as it is. *)
Definition idle_PeerConnection : PeerConnection :=
  {| RemoveLocalVideoTrack_impl := fun _ _ a fl => ([], a, fl) |}.

(** ** The adapter's member functions *)

(** [LocalVideoTrack::LocalVideoTrack(owner, track, sender, interop_handle)].
    [owner] is received by reference ([PeerConnection&]): it always denotes
    an object, and the member initialiser stores its address in [owner_]. *)
Definition LocalVideoTrack_ctor (this : SinkRef)
  (owner : OwnerRef) (track : option TrackRef)
  (sender : option SenderRef) (interop_handle : mrsLocalVideoTrackInteropHandle)
  (w : World) : Outcome unit :=
  (o <- get owner_ ;;
   RTC_CHECK (is_set o) ;;
   let sink_settings := VideoSinkWants_init in
   let sink_settings := set_rotation_applied true sink_settings in
   p <- get track_ ;;
   t <- deref p ;;
   AddOrUpdateSink t this sink_settings)
    {| self := {| owner_ := Some owner; track_ := track; sender_ := sender;
                  interop_handle_ := interop_handle |};
       world := w |}.

(** [LocalVideoTrack::~LocalVideoTrack()] *)
Definition LocalVideoTrack_dtor `{PeerConnection} (this : SinkRef) : M unit :=
  p <- get track_ ;;
  t <- deref p ;;
  RemoveSink t this ;;
  o <- get owner_ ;;
  match o with
  | Some owner => RemoveLocalVideoTrack owner this
  | None => ret tt
  end ;;
  o' <- get owner_ ;;
  RTC_CHECK (negb (is_set o')).

(** [bool LocalVideoTrack::IsEnabled() const] *)
Definition IsEnabled (this : SinkRef) : M bool :=
  p <- get track_ ;;
  t <- deref p ;;
  enabled t.

(** [void LocalVideoTrack::SetEnabled(bool enabled) const] *)
Definition SetEnabled (this : SinkRef) (b : bool) : M unit :=
  p <- get track_ ;;
  t <- deref p ;;
  set_enabled t b.

(** [void LocalVideoTrack::RemoveFromPeerConnection(PeerConnectionInterface& peer)] *)
Definition RemoveFromPeerConnection (this : SinkRef) (peer : PeerRef) : M unit :=
  s <- get sender_ ;;
  match s with
  | Some sender =>
      RemoveTrack peer sender ;;
      modify (with_sender None) ;;
      modify (with_owner None)
  | None => ret tt
  end.

(** ** Clients: sequences of calls on a live adapter *)

Inductive Op :=
| DoIsEnabled
| DoSetEnabled (b : bool)
| DoRemoveFromPeerConnection (peer : PeerRef).

Definition exec (this : SinkRef) (op : Op) : M unit :=
  match op with
  | DoIsEnabled => IsEnabled this ;; ret tt
  | DoSetEnabled b => SetEnabled this b
  | DoRemoveFromPeerConnection peer => RemoveFromPeerConnection this peer
  end.

Fixpoint exec_all (this : SinkRef) (ops : list Op) : M unit :=
  match ops with
  | [] => ret tt
  | op :: ops' => exec this op ;; exec_all this ops'
  end.

(** ** Observations *)

Definition final {A} (o : Outcome A) : option Machine :=
  match o with
  | Done _ m => Some m
  | Fatal m => Some m
  | Undefined => None
  end.

Definition value {A} (o : Outcome A) : option A :=
  match o with
  | Done a _ => Some a
  | _ => None
  end.

(** The calls a program makes when started in [m]. *)
Definition calls_during {A} (c : M A) (m : Machine) : list Call :=
  match final (c m) with
  | Some m' => skipn (length (trace (world m))) (trace (world m'))
  | None => []
  end.

(** The two states of the lifetime protocol. *)
Definition Attached (a : LocalVideoTrack) : Prop :=
  sender_ a <> None /\ owner_ a <> None.

Definition Detached (a : LocalVideoTrack) : Prop :=
  sender_ a = None /\ owner_ a = None.

(** States reachable from a construction that follows the contract (owner,
    track and sender all non-null) by enabled-state calls and removals. *)
Inductive reachable (this : SinkRef) : Machine -> Prop :=
| reach_ctor (o : OwnerRef) (t : TrackRef) (s : SenderRef)
    (h : mrsLocalVideoTrackInteropHandle) (w : World) (m : Machine) :
    LocalVideoTrack_ctor this o (Some t) (Some s) h w = Done tt m ->
    reachable this m
| reach_exec (m m' : Machine) (op : Op) :
    reachable this m ->
    exec this op m = Done tt m' ->
    reachable this m'.

Definition removal_twice (this : SinkRef) (peer peer' : PeerRef) : M unit :=
  RemoveFromPeerConnection this peer ;; RemoveFromPeerConnection this peer'.

(** Continuing after a call that returned. *)
Definition and_then {A B} (o : Outcome A) (k : M B) : Outcome B :=
  match o with
  | Done _ m => k m
  | Fatal m => Fatal m
  | Undefined => Undefined
  end.

(** ** Summaries of a sequence of client calls *)

Definition is_removal (op : Op) : bool :=
  match op with DoRemoveFromPeerConnection _ => true | _ => false end.

Definition has_removal (ops : list Op) : bool := existsb is_removal ops.

(** The argument of the last SetEnabled of the sequence, if there is one. *)
Fixpoint last_set_enabled (ops : list Op) : option bool :=
  match ops with
  | [] => None
  | op :: ops' =>
      match last_set_enabled ops' with
      | Some b => Some b
      | None => match op with DoSetEnabled b => Some b | _ => None end
      end
  end.

(** The members once a removal has found the sender set. *)
Definition cleared (a : LocalVideoTrack) : LocalVideoTrack :=
  with_owner None (with_sender None a).

(** The calls expected of a sequence of client calls on an adapter that
    holds track [t] and sender reference [sender]. *)
Fixpoint calls_of (t : TrackRef) (sender : option SenderRef) (ops : list Op)
  : list Call :=
  match ops with
  | [] => []
  | DoIsEnabled :: ops' => calls_of t sender ops'
  | DoSetEnabled b :: ops' => TrackSetEnabled t b :: calls_of t sender ops'
  | DoRemoveFromPeerConnection peer :: ops' =>
      match sender with
      | Some s => PeerRemoveTrack peer s :: calls_of t None ops'
      | None => calls_of t None ops'
      end
  end.

(** A call on the adapter's own track or with its own sender. *)
Definition own_call (t : TrackRef) (sender : option SenderRef) (c : Call) : bool :=
  match c with
  | TrackSetEnabled t' _ => Nat.eqb t' t
  | PeerRemoveTrack _ s =>
      match sender with Some s0 => Nat.eqb s s0 | None => false end
  | _ => false
  end.

(** An owner whose RemoveLocalVideoTrack removes the track by calling the
    adapter's RemoveFromPeerConnection with the engine peer connection
    [peer], and does nothing else. *)
Definition delegating_PeerConnection (peer : PeerRef) : PeerConnection :=
  {| RemoveLocalVideoTrack_impl :=
       fun _ video_track a fl =>
         match RemoveFromPeerConnection video_track peer
                 {| self := a; world := {| enabled_flag := fl; trace := [] |} |}
         with
         | Done _ m => (trace (world m), self m, enabled_flag (world m))
         | _ => ([], a, fl)
         end |}.

(** ** Sample machines *)

Definition fresh_world : World :=
  {| enabled_flag := fun _ => true; trace := [] |}.

(** The adapter at address 5 as a construction on owner 9, track 1 and
    sender 2 leaves it. *)
Definition attached_machine : Machine :=
  {| self := {| owner_ := Some 9; track_ := Some 1; sender_ := Some 2;
                interop_handle_ := None |};
     world := {| enabled_flag := fun _ => true;
                 trace := [TrackAddOrUpdateSink 1 5 {| rotation_applied := true |}] |} |}.

Definition sample_ops : list Op :=
  [DoSetEnabled false; DoRemoveFromPeerConnection 7; DoIsEnabled;
   DoRemoveFromPeerConnection 8; DoSetEnabled true; DoSetEnabled false].

(** ** Basic facts *)

Lemma skipn_length_app (A : Type) (l l' : list A) :
  skipn (length l) (l ++ l') = l'.
Proof.
  induction l as [| x l IH]; simpl; [reflexivity | exact IH].
Qed.

Lemma skipn_length_nil (A : Type) (l : list A) :
  skipn (length l) l = [].
Proof.
  induction l as [| x l IH]; simpl; [reflexivity | exact IH].
Qed.

Lemma set_flag_same t b f : set_flag t b f t = b.
Proof. unfold set_flag. rewrite Nat.eqb_refl. reflexivity. Qed.

Lemma set_flag_other t t' b f : t' <> t -> set_flag t b f t' = f t'.
Proof.
  intros Hne. unfold set_flag.
  destruct (Nat.eqb_spec t' t) as [E | _]; [contradiction | reflexivity].
Qed.

Lemma ctor_live this o t sender h w :
  LocalVideoTrack_ctor this o (Some t) sender h w =
    Done tt
      {| self := {| owner_ := Some o; track_ := Some t; sender_ := sender;
                    interop_handle_ := h |};
         world := log (TrackAddOrUpdateSink t this {| rotation_applied := true |}) w |}.
Proof. reflexivity. Qed.

Lemma IsEnabled_live this m t :
  track_ (self m) = Some t ->
  IsEnabled this m = Done (enabled_flag (world m) t) m.
Proof.
  intros Ht. unfold IsEnabled, bind, get, deref. rewrite Ht. reflexivity.
Qed.

Lemma SetEnabled_live this b m t :
  track_ (self m) = Some t ->
  SetEnabled this b m =
    Done tt {| self := self m;
               world := {| enabled_flag := set_flag t b (enabled_flag (world m));
                           trace := trace (world m) ++ [TrackSetEnabled t b] |} |}.
Proof.
  intros Ht. unfold SetEnabled, bind, get, deref. rewrite Ht. reflexivity.
Qed.

Lemma RemoveFromPeerConnection_present this peer m s :
  sender_ (self m) = Some s ->
  RemoveFromPeerConnection this peer m =
    Done tt {| self := {| owner_ := None; track_ := track_ (self m);
                          sender_ := None;
                          interop_handle_ := interop_handle_ (self m) |};
               world := log (PeerRemoveTrack peer s) (world m) |}.
Proof.
  intros Hs. unfold RemoveFromPeerConnection, bind, get. rewrite Hs. reflexivity.
Qed.

Lemma RemoveFromPeerConnection_absent this peer m :
  sender_ (self m) = None ->
  RemoveFromPeerConnection this peer m = Done tt m.
Proof.
  intros Hs. unfold RemoveFromPeerConnection, bind, get. rewrite Hs. reflexivity.
Qed.

(** What one client call does to the adapter's members: it returns, keeps
    the track reference and the interop handle, and either keeps the sender
    and owner references or, when the sender was set, clears both. *)
Lemma exec_members this op m t :
  track_ (self m) = Some t ->
  exists m',
    exec this op m = Done tt m' /\
    track_ (self m') = Some t /\
    interop_handle_ (self m') = interop_handle_ (self m) /\
    ((sender_ (self m') = sender_ (self m) /\ owner_ (self m') = owner_ (self m))
     \/ (sender_ (self m) <> None /\ sender_ (self m') = None /\ owner_ (self m') = None)).
Proof.
  intros Ht. destruct op as [| b | peer]; simpl.
  - unfold bind. rewrite (IsEnabled_live this m Ht). exists m.
    split; [reflexivity |]. auto.
  - rewrite (SetEnabled_live this b m Ht). eexists. split; [reflexivity |].
    simpl. auto.
  - destruct (sender_ (self m)) as [s |] eqn:Hs.
    + rewrite (RemoveFromPeerConnection_present this peer m Hs).
      eexists. split; [reflexivity |]. simpl.
      split; [exact Ht |]. split; [reflexivity |].
      right. split; [discriminate |]. split; reflexivity.
    + rewrite (RemoveFromPeerConnection_absent this peer m Hs).
      exists m. split; [reflexivity |]. split; [exact Ht |].
      split; [reflexivity |]. left. split; [exact Hs | reflexivity].
Qed.

Lemma exec_keeps_protocol_state this op m t :
  track_ (self m) = Some t ->
  Attached (self m) \/ Detached (self m) ->
  exists m',
    exec this op m = Done tt m' /\
    track_ (self m') = Some t /\
    (Attached (self m') \/ Detached (self m')).
Proof.
  intros Ht Hst.
  destruct (exec_members this op m Ht) as (m' & He & Ht' & _ & Hm).
  exists m'. split; [exact He |]. split; [exact Ht' |].
  unfold Attached, Detached in *.
  destruct Hm as [[Es Eo] | (_ & Es & Eo)].
  - rewrite Es, Eo. exact Hst.
  - right. split; assumption.
Qed.

(** On an adapter whose sender reference is null, no client call changes the
    members, and none makes a RemoveTrack call. *)
Lemma exec_all_null_sender this ops : forall m t,
  track_ (self m) = Some t ->
  sender_ (self m) = None ->
  exists m' calls,
    exec_all this ops m = Done tt m' /\
    self m' = self m /\
    trace (world m') = trace (world m) ++ calls /\
    count is_PeerRemoveTrack calls = 0.
Proof.
  induction ops as [| op ops IH]; intros m t Ht Hs; simpl.
  - exists m, []. rewrite app_nil_r. auto.
  - unfold bind. destruct op as [| b | peer]; simpl.
    + unfold bind. rewrite (IsEnabled_live this m Ht). simpl.
      apply (IH m t Ht Hs).
    + rewrite (SetEnabled_live this b m Ht).
      destruct (IH {| self := self m;
                      world := {| enabled_flag := set_flag t b (enabled_flag (world m));
                                  trace := trace (world m) ++ [TrackSetEnabled t b] |} |}
                   t Ht Hs) as (m' & calls & He & Hself & Htr & Hc).
      exists m', (TrackSetEnabled t b :: calls).
      split; [exact He |]. split; [exact Hself |].
      split; [| exact Hc].
      rewrite Htr. simpl. rewrite <- app_assoc. reflexivity.
    + rewrite (RemoveFromPeerConnection_absent this peer m Hs).
      apply (IH m t Ht Hs).
Qed.

(** ** Explicit removal *)

(** C1. RemoveFromPeerConnection with an engine peer connection: when the
    sender reference is set, the engine's RemoveTrack is called with that
    sender, and afterwards both the sender reference and the owner
    back-reference are null, the other members and the engine's enable flags
    being as before; when the sender reference is null the call returns and
    the machine is unchanged. *)
Theorem RemoveFromPeerConnection_effect (this : SinkRef) (peer : PeerRef) (m : Machine) :
  match sender_ (self m) with
  | Some s =>
      RemoveFromPeerConnection this peer m =
        Done tt
          {| self := {| owner_ := None; track_ := track_ (self m);
                        sender_ := None;
                        interop_handle_ := interop_handle_ (self m) |};
             world := {| enabled_flag := enabled_flag (world m);
                         trace := trace (world m) ++ [PeerRemoveTrack peer s] |} |}
  | None => RemoveFromPeerConnection this peer m = Done tt m
  end.
Proof.
  destruct (sender_ (self m)) as [s |] eqn:Hs.
  - rewrite (RemoveFromPeerConnection_present this peer m Hs). reflexivity.
  - apply RemoveFromPeerConnection_absent. exact Hs.
Qed.

(** C3, as stated, fails: on an adapter that is already detached (here the
    one left by a construction and a first removal), two removals in a row
    return without any RemoveTrack call, not with exactly one. *)
Lemma removal_twice_on_detached_makes_no_call :
  exists m0,
    LocalVideoTrack_ctor 5 9 (Some 1) (Some 2) None fresh_world = Done tt m0 /\
    exists m1,
      RemoveFromPeerConnection 5 7 m0 = Done tt m1 /\
      removal_twice 5 7 7 m1 = Done tt m1 /\
      calls_during (removal_twice 5 7 7) m1 = [] /\
      count is_PeerRemoveTrack (calls_during (removal_twice 5 7 7) m1) <> 1.
Proof.
  eexists. split; [cbv; reflexivity |].
  eexists. split; [cbv; reflexivity |].
  split; [cbv; reflexivity |].
  split; [reflexivity | discriminate].
Qed.

(** C3, amended. Two removals in a row both return; the second leaves the
    machine exactly as the first left it; and together they make exactly one
    RemoveTrack call when the sender reference was set at the start, and none
    when it was null. *)
Theorem removal_twice_idempotent (this : SinkRef) (peer peer' : PeerRef) (m : Machine) :
  exists m1,
    RemoveFromPeerConnection this peer m = Done tt m1 /\
    RemoveFromPeerConnection this peer' m1 = Done tt m1 /\
    removal_twice this peer peer' m = Done tt m1 /\
    count is_PeerRemoveTrack (calls_during (removal_twice this peer peer') m)
    = (if is_set (sender_ (self m)) then 1 else 0).
Proof.
  unfold calls_during, removal_twice, bind.
  destruct (sender_ (self m)) as [s |] eqn:Hs.
  - rewrite (RemoveFromPeerConnection_present this peer m Hs).
    eexists. split; [reflexivity |].
    rewrite RemoveFromPeerConnection_absent by reflexivity.
    split; [reflexivity |]. split; [reflexivity |].
    simpl. rewrite skipn_length_app. reflexivity.
  - rewrite (RemoveFromPeerConnection_absent this peer m Hs).
    exists m. split; [reflexivity |].
    rewrite (RemoveFromPeerConnection_absent this peer' m Hs).
    split; [reflexivity |]. split; [reflexivity |].
    simpl. rewrite skipn_length_nil. reflexivity.
Qed.

(** ** Construction *)

(** C4. Construction with a non-null owner on a track [t] returns, and the
    only call it makes is one AddOrUpdateSink on [t], for the adapter itself,
    with a configuration whose rotation_applied flag is true. *)
Theorem ctor_attaches_sink_once
  (this : SinkRef) (o : OwnerRef) (t : TrackRef) (sender : option SenderRef)
  (h : mrsLocalVideoTrackInteropHandle) (w : World) :
  exists (m : Machine) (wants : VideoSinkWants),
    LocalVideoTrack_ctor this o (Some t) sender h w = Done tt m /\
    trace (world m) = trace w ++ [TrackAddOrUpdateSink t this wants] /\
    rotation_applied wants = true /\
    count is_TrackAddOrUpdateSink
      (skipn (length (trace w)) (trace (world m))) = 1 /\
    enabled_flag (world m) = enabled_flag w /\
    self m = {| owner_ := Some o; track_ := Some t; sender_ := sender;
                interop_handle_ := h |}.
Proof.
  rewrite ctor_live. eexists. eexists. split; [reflexivity |].
  simpl. repeat split. rewrite skipn_length_app. reflexivity.
Qed.



(** ** Enabled state *)

(** C8. On an adapter with track [t], IsEnabled returns the engine's enable
    flag of [t] and leaves the machine unchanged; SetEnabled [b] returns,
    leaves the adapter's members unchanged, sets the engine's flag of [t] to
    [b] and no other flag, by one set_enabled call on [t]; a query made next
    returns [b]; and whatever the engine's state becomes afterwards, the
    query returns the flag found there. *)
Theorem enabled_state_forwarding (this : SinkRef) (m : Machine) (t : TrackRef) (b : bool) :
  track_ (self m) = Some t ->
  IsEnabled this m = Done (enabled_flag (world m) t) m /\
  exists m',
    SetEnabled this b m = Done tt m' /\
    self m' = self m /\
    enabled_flag (world m') t = b /\
    (forall t', t' <> t -> enabled_flag (world m') t' = enabled_flag (world m) t') /\
    trace (world m') = trace (world m) ++ [TrackSetEnabled t b] /\
    IsEnabled this m' = Done b m' /\
    forall w : World,
      IsEnabled this {| self := self m'; world := w |} =
        Done (enabled_flag w t) {| self := self m'; world := w |}.
Proof.
  intros Ht. split; [exact (IsEnabled_live this m Ht) |].
  rewrite (SetEnabled_live this b m Ht). eexists. split; [reflexivity |].
  simpl. split; [reflexivity |].
  split; [apply set_flag_same |].
  split; [intros t' Hne; apply set_flag_other; exact Hne |].
  split; [reflexivity |].
  split.
  - rewrite (@IsEnabled_live this _ t) by exact Ht. simpl.
    rewrite set_flag_same. reflexivity.
  - intros w. apply IsEnabled_live. exact Ht.
Qed.

Lemma enabled_state_forwarding_witness :
  track_ (self attached_machine) = Some 1 /\
  IsEnabled 5 attached_machine = Done true attached_machine /\
  exists m',
    SetEnabled 5 false attached_machine = Done tt m' /\
    self m' = self attached_machine /\
    enabled_flag (world m') 1 = false /\
    (forall t', t' <> 1 ->
       enabled_flag (world m') t' = enabled_flag (world attached_machine) t') /\
    trace (world m') =
      trace (world attached_machine) ++ [TrackSetEnabled 1 false] /\
    IsEnabled 5 m' = Done false m' /\
    forall w : World,
      IsEnabled 5 {| self := self m'; world := w |} =
        Done (enabled_flag w 1) {| self := self m'; world := w |}.
Proof.
  split; [reflexivity |].
  exact (@enabled_state_forwarding 5 attached_machine 1 false eq_refl).
Defined.

(** C9. A removal that finds the sender set keeps the track reference and
    the interop handle and leaves the engine's enable flags alone: the query
    made after it returns what it returned before, and SetEnabled [b] after
    it sets the flag of the same track, by the same call and with the same
    resulting flags as it would have before the removal. *)
Theorem removal_keeps_enabled_state
  (this : SinkRef) (peer : PeerRef) (m : Machine) (s : SenderRef) (t : TrackRef) :
  sender_ (self m) = Some s ->
  track_ (self m) = Some t ->
  exists m1,
    RemoveFromPeerConnection this peer m = Done tt m1 /\
    track_ (self m1) = track_ (self m) /\
    interop_handle_ (self m1) = interop_handle_ (self m) /\
    enabled_flag (world m1) = enabled_flag (world m) /\
    IsEnabled this m1 = Done (enabled_flag (world m) t) m1 /\
    value (IsEnabled this m1) = value (IsEnabled this m) /\
    forall b : bool,
      exists m2 m2',
        SetEnabled this b m1 = Done tt m2 /\
        SetEnabled this b m = Done tt m2' /\
        self m2 = self m1 /\
        enabled_flag (world m2) = enabled_flag (world m2') /\
        enabled_flag (world m2) t = b /\
        calls_during (SetEnabled this b) m1 = [TrackSetEnabled t b] /\
        calls_during (SetEnabled this b) m = [TrackSetEnabled t b] /\
        IsEnabled this m2 = Done b m2.
Proof.
  intros Hs Ht.
  rewrite (RemoveFromPeerConnection_present this peer m Hs).
  eexists. split; [reflexivity |].
  simpl. split; [reflexivity |]. split; [reflexivity |]. split; [reflexivity |].
  split; [rewrite (@IsEnabled_live this _ t) by exact Ht; reflexivity |].
  split.
  - rewrite (@IsEnabled_live this _ t) by exact Ht.
    rewrite (IsEnabled_live this m Ht). reflexivity.
  - intros b. unfold calls_during.
    rewrite (@SetEnabled_live this b _ t) by exact Ht.
    rewrite (SetEnabled_live this b m Ht).
    eexists. eexists. split; [reflexivity |]. split; [reflexivity |].
    simpl. split; [reflexivity |]. split; [reflexivity |].
    split; [apply set_flag_same |].
    split; [apply skipn_length_app |].
    split; [apply skipn_length_app |].
    rewrite (@IsEnabled_live this _ t) by exact Ht. simpl.
    rewrite set_flag_same. reflexivity.
Qed.

Lemma removal_keeps_enabled_state_witness :
  sender_ (self attached_machine) = Some 2 /\
  track_ (self attached_machine) = Some 1 /\
  exists m1,
    RemoveFromPeerConnection 5 7 attached_machine = Done tt m1 /\
    track_ (self m1) = track_ (self attached_machine) /\
    interop_handle_ (self m1) = interop_handle_ (self attached_machine) /\
    enabled_flag (world m1) = enabled_flag (world attached_machine) /\
    IsEnabled 5 m1 = Done (enabled_flag (world attached_machine) 1) m1 /\
    value (IsEnabled 5 m1) = value (IsEnabled 5 attached_machine) /\
    forall b : bool,
      exists m2 m2',
        SetEnabled 5 b m1 = Done tt m2 /\
        SetEnabled 5 b attached_machine = Done tt m2' /\
        self m2 = self m1 /\
        enabled_flag (world m2) = enabled_flag (world m2') /\
        enabled_flag (world m2) 1 = b /\
        calls_during (SetEnabled 5 b) m1 = [TrackSetEnabled 1 b] /\
        calls_during (SetEnabled 5 b) attached_machine = [TrackSetEnabled 1 b] /\
        IsEnabled 5 m2 = Done b m2.
Proof.
  split; [reflexivity |]. split; [reflexivity |].
  exact (@removal_keeps_enabled_state 5 7 attached_machine 2 1 eq_refl eq_refl).
Defined.

(** ** The two protocol states *)

Lemma protocol_state_iff (a : LocalVideoTrack) :
  Attached a \/ Detached a ->
  (sender_ a <> None <-> owner_ a <> None).
Proof.
  unfold Attached, Detached. intros [[Hs Ho] | [Hs Ho]].
  - split; intros _; assumption.
  - split; intros Hn; [rewrite Hs in Hn | rewrite Ho in Hn]; contradiction.
Qed.

Lemma reachable_live (this : SinkRef) (m : Machine) :
  reachable this m ->
  exists t, track_ (self m) = Some t /\ (Attached (self m) \/ Detached (self m)).
Proof.
  induction 1 as [o t s h w m Hc | m m' op _ IH He].
  - rewrite ctor_live in Hc. injection Hc as <-.
    exists t. split; [reflexivity |]. left. split; discriminate.
  - destruct IH as (t & Ht & Hst).
    destruct (exec_keeps_protocol_state this op m Ht Hst) as (m2 & He2 & Ht2 & Hst2).
    rewrite He in He2. injection He2 as ->.
    exists t. split; assumption.
Qed.

(** C7. A construction that follows the contract leaves the adapter
    Attached, and in every state reached from there by enabled-state calls
    and removals the adapter is Attached (sender and owner both set) or
    Detached (both null), so the sender reference is non-null exactly when
    the owner back-reference is; every such call returns, into a state that
    is again one of the two. *)
Theorem protocol_state_invariant (this : SinkRef) (m : Machine) :
  reachable this m ->
  (Attached (self m) \/ Detached (self m)) /\
  (sender_ (self m) <> None <-> owner_ (self m) <> None) /\
  forall op : Op,
    exists m',
      exec this op m = Done tt m' /\
      reachable this m' /\
      (Attached (self m') \/ Detached (self m')).
Proof.
  intros Hr. destruct (reachable_live Hr) as (t & Ht & Hst).
  split; [exact Hst |].
  split; [apply protocol_state_iff; exact Hst |].
  intros op.
  destruct (exec_keeps_protocol_state this op m Ht Hst) as (m' & He & _ & Hst').
  exists m'. split; [exact He |].
  split; [exact (@reach_exec this m m' op Hr He) | exact Hst'].
Qed.

Lemma protocol_state_invariant_witness :
  reachable 5 attached_machine /\
  (Attached (self attached_machine) \/ Detached (self attached_machine)) /\
  (sender_ (self attached_machine) <> None <-> owner_ (self attached_machine) <> None) /\
  forall op : Op,
    exists m',
      exec 5 op attached_machine = Done tt m' /\
      reachable 5 m' /\
      (Attached (self m') \/ Detached (self m')).
Proof.
  assert (Hr : reachable 5 attached_machine).
  { apply (@reach_ctor 5 9 1 2 None fresh_world). reflexivity. }
  split; [exact Hr |].
  exact (@protocol_state_invariant 5 attached_machine Hr).
Defined.

(** ** Destruction *)

Section Teardown.

Context `{PeerConnection}.

Lemma dtor_unfold this m t :
  track_ (self m) = Some t ->
  LocalVideoTrack_dtor this m =
    match owner_ (self m) with
    | Some o =>
        let r := RemoveLocalVideoTrack_impl o this (self m) (enabled_flag (world m)) in
        let m' :=
          {| self := snd (fst r);
             world := {| enabled_flag := snd r;
                         trace := (trace (world m) ++ [TrackRemoveSink t this])
                                  ++ OwnerRemoveLocalVideoTrack o this :: fst (fst r) |} |} in
        if is_set (owner_ (snd (fst r))) then Fatal m' else Done tt m'
    | None =>
        Done tt {| self := self m; world := log (TrackRemoveSink t this) (world m) |}
    end.
Proof.
  intros Ht. unfold LocalVideoTrack_dtor, bind, get, deref. rewrite Ht.
  simpl. destruct (owner_ (self m)) as [o |] eqn:Ho.
  - unfold RemoveLocalVideoTrack. simpl.
    destruct (RemoveLocalVideoTrack_impl o this (self m) (enabled_flag (world m)))
      as [[calls a] fl].
    simpl. destruct (owner_ a); reflexivity.
  - simpl. rewrite Ho. reflexivity.
Qed.

(** C2. The destructor of an adapter with track [t] first calls RemoveSink
    on [t] for the adapter; after that, and only when the owner
    back-reference is non-null, it calls the owner's RemoveLocalVideoTrack
    for the adapter (followed by whatever calls the owner makes); last comes
    the RTC_CHECK: the destructor returns when the back-reference is null at
    that point and aborts when it is not. *)
Theorem dtor_teardown_order (this : SinkRef) (m : Machine) (t : TrackRef) :
  track_ (self m) = Some t ->
  exists m' : Machine,
    final (LocalVideoTrack_dtor this m) = Some m' /\
    trace (world m') =
      trace (world m) ++ TrackRemoveSink t this ::
        match owner_ (self m) with
        | Some o =>
            OwnerRemoveLocalVideoTrack o this ::
              fst (fst (RemoveLocalVideoTrack_impl o this (self m)
                          (enabled_flag (world m))))
        | None => []
        end /\
    LocalVideoTrack_dtor this m =
      (if is_set (owner_ (self m')) then Fatal m' else Done tt m').
Proof.
  intros Ht. rewrite (dtor_unfold this m Ht).
  destruct (owner_ (self m)) as [o |] eqn:Ho.
  - cbv zeta.
    destruct (RemoveLocalVideoTrack_impl o this (self m) (enabled_flag (world m)))
      as [[calls a] fl].
    simpl. destruct (owner_ a) as [o' |] eqn:Ho'; simpl;
      eexists; (split; [reflexivity |]); simpl; rewrite Ho'; simpl;
      (split; [rewrite <- app_assoc; reflexivity | reflexivity]).
  - eexists. split; [reflexivity |]. simpl. rewrite Ho. simpl.
    split; reflexivity.
Qed.

(** C6. After a removal that found the sender set, the destructor returns
    (its final check passes) having made one RemoveSink call on the track
    and no call on the owner, whatever the owner's implementation is. *)
Theorem dtor_after_removal_skips_owner
  (this : SinkRef) (peer : PeerRef) (m : Machine) (s : SenderRef) (t : TrackRef) :
  sender_ (self m) = Some s ->
  track_ (self m) = Some t ->
  exists m1 m2,
    RemoveFromPeerConnection this peer m = Done tt m1 /\
    owner_ (self m1) = None /\
    LocalVideoTrack_dtor this m1 = Done tt m2 /\
    calls_during (LocalVideoTrack_dtor this) m1 = [TrackRemoveSink t this] /\
    count is_OwnerRemoveLocalVideoTrack
      (calls_during (LocalVideoTrack_dtor this) m1) = 0 /\
    count is_TrackRemoveSink
      (calls_during (LocalVideoTrack_dtor this) m1) = 1.
Proof.
  intros Hs Ht.
  rewrite (RemoveFromPeerConnection_present this peer m Hs).
  eexists. eexists. split; [reflexivity |].
  split; [reflexivity |].
  unfold calls_during.
  rewrite (@dtor_unfold this _ t) by exact Ht. simpl.
  split; [reflexivity |].
  rewrite skipn_length_app. repeat split.
Qed.

(** The same holds when enabled-state calls and further removals come
    between the removal and the destruction. *)
Lemma dtor_after_detached_calls
  (this : SinkRef) (peer : PeerRef) (ops : list Op) (m : Machine)
  (s : SenderRef) (t : TrackRef) :
  sender_ (self m) = Some s ->
  track_ (self m) = Some t ->
  exists m1 m2 m3,
    RemoveFromPeerConnection this peer m = Done tt m1 /\
    exec_all this ops m1 = Done tt m2 /\
    LocalVideoTrack_dtor this m2 = Done tt m3 /\
    calls_during (LocalVideoTrack_dtor this) m2 = [TrackRemoveSink t this].
Proof.
  intros Hs Ht.
  rewrite (RemoveFromPeerConnection_present this peer m Hs).
  match goal with
  | |- exists m1 m2 m3, Done tt ?x = _ /\ _ =>
      destruct (@exec_all_null_sender this ops x t Ht eq_refl)
        as (m2 & calls & He & Hself & _ & _);
      exists x
  end.
  assert (Ht2 : track_ (self m2) = Some t) by (rewrite Hself; exact Ht).
  assert (Ho2 : owner_ (self m2) = None) by (rewrite Hself; reflexivity).
  exists m2. eexists. split; [reflexivity |]. split; [exact He |].
  unfold calls_during. rewrite (dtor_unfold this m2 Ht2), Ho2.
  split; [reflexivity |]. simpl. apply skipn_length_app.
Qed.

(** C10. With a non-null owner the constructor's check passes whatever the
    track and sender references are; a construction with a null sender and a
    non-null owner and track returns; on the adapter it leaves, every removal
    returns with the machine unchanged, so after any sequence of client
    calls the members are still as constructed, with the owner
    back-reference set, and no RemoveTrack call has been made; the
    destructor then calls the owner's RemoveLocalVideoTrack for the adapter,
    right after RemoveSink. *)
Theorem null_sender_accepted
  (this : SinkRef) (o : OwnerRef) (t : TrackRef)
  (h : mrsLocalVideoTrackInteropHandle) (w : World) (ops : list Op) :
  (forall (track : option TrackRef) (sender : option SenderRef) (m : Machine),
     LocalVideoTrack_ctor this o track sender h w <> Fatal m) /\
  exists m0,
    LocalVideoTrack_ctor this o (Some t) None h w = Done tt m0 /\
    sender_ (self m0) = None /\
    owner_ (self m0) = Some o /\
    (forall peer, RemoveFromPeerConnection this peer m0 = Done tt m0) /\
    exists m,
      exec_all this ops m0 = Done tt m /\
      self m = self m0 /\
      count is_PeerRemoveTrack (calls_during (exec_all this ops) m0) = 0 /\
      exists m',
        final (LocalVideoTrack_dtor this m) = Some m' /\
        trace (world m') =
          trace (world m) ++
            TrackRemoveSink t this :: OwnerRemoveLocalVideoTrack o this ::
              fst (fst (RemoveLocalVideoTrack_impl o this (self m)
                          (enabled_flag (world m)))).
Proof.
  split; [intros [t' |] sender m; discriminate |].
  rewrite ctor_live. eexists. split; [reflexivity |].
  simpl. split; [reflexivity |]. split; [reflexivity |].
  split; [intros peer; apply RemoveFromPeerConnection_absent; reflexivity |].
  match goal with
  | |- exists m, exec_all this ops ?m0 = _ /\ _ =>
      destruct (@exec_all_null_sender this ops m0 t eq_refl eq_refl)
        as (m & calls & He & Hself & Htr & Hc)
  end.
  exists m. split; [exact He |]. split; [exact Hself |].
  split.
  - unfold calls_during. rewrite He. simpl final. cbv iota.
    rewrite Htr. rewrite skipn_length_app. exact Hc.
  - assert (Ht : track_ (self m) = Some t) by (rewrite Hself; reflexivity).
    assert (Ho : owner_ (self m) = Some o) by (rewrite Hself; reflexivity).
    rewrite (dtor_unfold this m Ht). rewrite Ho. cbv zeta.
    destruct (RemoveLocalVideoTrack_impl o this (self m) (enabled_flag (world m)))
      as [[calls' a] fl].
    simpl. destruct (owner_ a); simpl; eexists;
      (split; [reflexivity |]); simpl; rewrite <- app_assoc; reflexivity.
Qed.

End Teardown.

(** ** Witnesses and scenarios *)

Lemma dtor_teardown_order_witness :
  track_ (self attached_machine) = Some 1 /\
  exists m' : Machine,
    final (@LocalVideoTrack_dtor contract_PeerConnection 5 attached_machine) = Some m' /\
    trace (world m') =
      trace (world attached_machine) ++ TrackRemoveSink 1 5 ::
        match owner_ (self attached_machine) with
        | Some o =>
            OwnerRemoveLocalVideoTrack o 5 ::
              fst (fst (@RemoveLocalVideoTrack_impl contract_PeerConnection o 5
                          (self attached_machine)
                          (enabled_flag (world attached_machine))))
        | None => []
        end /\
    @LocalVideoTrack_dtor contract_PeerConnection 5 attached_machine =
      (if is_set (owner_ (self m')) then Fatal m' else Done tt m').
Proof.
  split; [reflexivity |].
  exact (@dtor_teardown_order contract_PeerConnection 5 attached_machine 1 eq_refl).
Defined.

Lemma dtor_after_removal_skips_owner_witness :
  sender_ (self attached_machine) = Some 2 /\
  track_ (self attached_machine) = Some 1 /\
  exists m1 m2,
    RemoveFromPeerConnection 5 7 attached_machine = Done tt m1 /\
    owner_ (self m1) = None /\
    @LocalVideoTrack_dtor idle_PeerConnection 5 m1 = Done tt m2 /\
    calls_during (@LocalVideoTrack_dtor idle_PeerConnection 5) m1 =
      [TrackRemoveSink 1 5] /\
    count is_OwnerRemoveLocalVideoTrack
      (calls_during (@LocalVideoTrack_dtor idle_PeerConnection 5) m1) = 0 /\
    count is_TrackRemoveSink
      (calls_during (@LocalVideoTrack_dtor idle_PeerConnection 5) m1) = 1.
Proof.
  split; [reflexivity |]. split; [reflexivity |].
  exact (@dtor_after_removal_skips_owner idle_PeerConnection 5 7 attached_machine
           2 1 eq_refl eq_refl).
Defined.

(** Construct, then destroy, under an owner that keeps its contract. *)
Example scenario_construct_destroy :
  option_map (fun m => trace (world m))
    (final (and_then
              (LocalVideoTrack_ctor 5 9 (Some 1) (Some 2) None fresh_world)
              (@LocalVideoTrack_dtor contract_PeerConnection 5)))
  = Some [TrackAddOrUpdateSink 1 5 {| rotation_applied := true |};
          TrackRemoveSink 1 5;
          OwnerRemoveLocalVideoTrack 9 5].
Proof. reflexivity. Qed.

(** The same under an owner that leaves the back-reference set: the
    destructor's check aborts. *)
Example scenario_destroy_idle_owner :
  value (and_then
           (LocalVideoTrack_ctor 5 9 (Some 1) (Some 2) None fresh_world)
           (@LocalVideoTrack_dtor idle_PeerConnection 5))
  = None.
Proof. reflexivity. Qed.

(** Construct, remove, destroy. *)
Example scenario_remove_then_destroy :
  option_map (fun m => (trace (world m), sender_ (self m), owner_ (self m)))
    (final (and_then
              (LocalVideoTrack_ctor 5 9 (Some 1) (Some 2) None fresh_world)
              (RemoveFromPeerConnection 5 7 ;;
               @LocalVideoTrack_dtor idle_PeerConnection 5)))
  = Some ([TrackAddOrUpdateSink 1 5 {| rotation_applied := true |};
           PeerRemoveTrack 7 2;
           TrackRemoveSink 1 5], None, None).
Proof. reflexivity. Qed.

(** Construct, remove twice. *)
Example scenario_remove_twice :
  option_map (fun m => trace (world m))
    (final (and_then
              (LocalVideoTrack_ctor 5 9 (Some 1) (Some 2) None fresh_world)
              (removal_twice 5 7 7)))
  = Some [TrackAddOrUpdateSink 1 5 {| rotation_applied := true |};
          PeerRemoveTrack 7 2].
Proof. reflexivity. Qed.

(** Construct, disable, query, enable, query. *)
Example scenario_disable_enable :
  value (and_then
           (LocalVideoTrack_ctor 5 9 (Some 1) (Some 2) None fresh_world)
           (SetEnabled 5 false ;;
            b1 <- IsEnabled 5 ;;
            SetEnabled 5 true ;;
            b2 <- IsEnabled 5 ;;
            ret (b1, b2)))
  = Some (false, true).
Proof. reflexivity. Qed.

(** Construct, remove, enable. *)
Example scenario_enable_after_removal :
  value (and_then
           (LocalVideoTrack_ctor 5 9 (Some 1) (Some 2) None
              {| enabled_flag := fun _ => false; trace := [] |})
           (RemoveFromPeerConnection 5 7 ;;
            SetEnabled 5 true ;;
            IsEnabled 5))
  = Some true.
Proof. reflexivity. Qed.

(** A null track is dereferenced by the constructor, unchecked. *)
Example scenario_null_track :
  LocalVideoTrack_ctor 5 9 None (Some 2) None fresh_world = Undefined.
Proof. reflexivity. Qed.

(** ** Sequences of client calls *)

Lemma count_app (p : Call -> bool) (l l' : list Call) :
  count p (l ++ l') = count p l + count p l'.
Proof. unfold count. rewrite filter_app, length_app. reflexivity. Qed.

Lemma count_none (p q : Call -> bool) (l : list Call) :
  (forall c, q c = true -> p c = false) ->
  forallb q l = true ->
  count p l = 0.
Proof.
  intros Hpq. unfold count. induction l as [| c l IH]; simpl; [reflexivity |].
  intros Hq. apply andb_prop in Hq. destruct Hq as [Hc Hl].
  rewrite (Hpq c Hc). apply IH. exact Hl.
Qed.

Lemma calls_of_detached_own t sender ops :
  forallb (own_call t sender) (calls_of t None ops) = true.
Proof.
  induction ops as [| [| b | peer] ops IH]; simpl; try exact IH; [reflexivity |].
  rewrite Nat.eqb_refl. exact IH.
Qed.

Lemma calls_of_own t sender ops :
  forallb (own_call t sender) (calls_of t sender ops) = true.
Proof.
  induction ops as [| [| b | peer] ops IH]; simpl; try exact IH; [reflexivity | |].
  - rewrite Nat.eqb_refl. exact IH.
  - destruct sender as [s |]; simpl.
    + rewrite Nat.eqb_refl. apply calls_of_detached_own.
    + apply calls_of_detached_own.
Qed.

Lemma calls_of_detached_count t ops :
  count is_PeerRemoveTrack (calls_of t None ops) = 0.
Proof.
  apply count_none with (q := own_call t None); [| apply calls_of_detached_own].
  intros [] Hc; simpl in *; try reflexivity; discriminate.
Qed.

Lemma calls_of_count t sender ops :
  count is_PeerRemoveTrack (calls_of t sender ops)
  = if (is_set sender && has_removal ops)%bool then 1 else 0.
Proof.
  destruct sender as [s |]; [| apply calls_of_detached_count].
  induction ops as [| [| b | peer] ops IH]; simpl; try exact IH; [reflexivity |].
  change (S (count is_PeerRemoveTrack (calls_of t None ops)) = 1).
  rewrite calls_of_detached_count. reflexivity.
Qed.

(** What a sequence of client calls does, as a whole. *)
Lemma exec_all_effect this ops : forall m t,
  track_ (self m) = Some t ->
  exists m',
    exec_all this ops m = Done tt m' /\
    self m' = (if (is_set (sender_ (self m)) && has_removal ops)%bool
               then cleared (self m) else self m) /\
    trace (world m') = trace (world m) ++ calls_of t (sender_ (self m)) ops /\
    enabled_flag (world m') t =
      match last_set_enabled ops with
      | Some b => b
      | None => enabled_flag (world m) t
      end /\
    forall t', t' <> t -> enabled_flag (world m') t' = enabled_flag (world m) t'.
Proof.
  induction ops as [| op ops IH]; intros m t Ht.
  - exists m. simpl. rewrite andb_false_r, app_nil_r. auto.
  - destruct op as [| b | peer]; simpl exec_all; unfold bind; simpl exec.
    + unfold bind. rewrite (IsEnabled_live this m Ht). simpl.
      destruct (IH m t Ht) as (m' & He & Hself & Htr & Hfl & Hoth).
      exists m'. split; [exact He |]. split; [exact Hself |].
      split; [exact Htr |].
      split; [rewrite Hfl; destruct (last_set_enabled ops); reflexivity |].
      exact Hoth.
    + rewrite (SetEnabled_live this b m Ht).
      match goal with
      | |- exists m', exec_all this ops ?m1 = _ /\ _ =>
          destruct (IH m1 t Ht) as (m' & He & Hself & Htr & Hfl & Hoth)
      end.
      simpl in Hself, Htr, Hfl, Hoth.
      exists m'. split; [exact He |]. split; [exact Hself |].
      split; [rewrite Htr, <- app_assoc; reflexivity |].
      split.
      * rewrite Hfl. simpl. destruct (last_set_enabled ops); [reflexivity |].
        apply set_flag_same.
      * intros t' Hne. rewrite (Hoth t' Hne). apply set_flag_other. exact Hne.
    + destruct (sender_ (self m)) as [s |] eqn:Hs.
      * rewrite (RemoveFromPeerConnection_present this peer m Hs).
        match goal with
        | |- exists m', exec_all this ops ?m1 = _ /\ _ =>
            destruct (IH m1 t Ht) as (m' & He & Hself & Htr & Hfl & Hoth)
        end.
        simpl in Hself, Htr, Hfl, Hoth.
        exists m'. split; [exact He |]. split; [exact Hself |].
        split; [rewrite Htr, <- app_assoc; reflexivity |].
        split; [rewrite Hfl; simpl; destruct (last_set_enabled ops); reflexivity |].
        exact Hoth.
      * rewrite (RemoveFromPeerConnection_absent this peer m Hs).
        destruct (IH m t Ht) as (m' & He & Hself & Htr & Hfl & Hoth).
        rewrite Hs in Hself, Htr. simpl in Hself.
        exists m'. split; [exact He |]. split; [exact Hself |].
        split; [exact Htr |].
        split; [rewrite Hfl; simpl; destruct (last_set_enabled ops); reflexivity |].
        exact Hoth.
Qed.

Lemma calls_during_exec_all this ops m t :
  track_ (self m) = Some t ->
  calls_during (exec_all this ops) m = calls_of t (sender_ (self m)) ops.
Proof.
  intros Ht. destruct (exec_all_effect this ops m Ht) as (m' & He & _ & Htr & _).
  unfold calls_during. rewrite He. simpl. rewrite Htr. apply skipn_length_app.
Qed.

(** X1. Any sequence of enabled-state calls and removals on an adapter with a
    live track returns.  It never changes the track reference or the interop
    handle; it clears the sender and owner references, both, exactly when the
    sender was set at the start and the sequence contains a removal, and
    otherwise leaves both as they were. *)
Theorem client_calls_members (this : SinkRef) (ops : list Op) (m : Machine) (t : TrackRef) :
  track_ (self m) = Some t ->
  exists m',
    exec_all this ops m = Done tt m' /\
    track_ (self m') = track_ (self m) /\
    interop_handle_ (self m') = interop_handle_ (self m) /\
    if (is_set (sender_ (self m)) && has_removal ops)%bool
    then sender_ (self m') = None /\ owner_ (self m') = None
    else sender_ (self m') = sender_ (self m) /\ owner_ (self m') = owner_ (self m).
Proof.
  intros Ht. destruct (exec_all_effect this ops m Ht) as (m' & He & Hself & _).
  exists m'. split; [exact He |]. rewrite Hself.
  destruct (is_set (sender_ (self m)) && has_removal ops)%bool; simpl; auto.
Qed.

Lemma client_calls_members_witness :
  track_ (self attached_machine) = Some 1 /\
  exists m',
    exec_all 5 sample_ops attached_machine = Done tt m' /\
    track_ (self m') = track_ (self attached_machine) /\
    interop_handle_ (self m') = interop_handle_ (self attached_machine) /\
    if (is_set (sender_ (self attached_machine)) && has_removal sample_ops)%bool
    then sender_ (self m') = None /\ owner_ (self m') = None
    else sender_ (self m') = sender_ (self attached_machine) /\
         owner_ (self m') = owner_ (self attached_machine).
Proof.
  split; [reflexivity |].
  exact (@client_calls_members 5 sample_ops attached_machine 1 eq_refl).
Defined.

(** X2. A sequence of client calls makes at most one RemoveTrack call on the
    engine, however many removals it contains: exactly one when the sender
    was set at the start and the sequence contains a removal, none
    otherwise. *)
Theorem client_calls_remove_track_once
  (this : SinkRef) (ops : list Op) (m : Machine) (t : TrackRef) :
  track_ (self m) = Some t ->
  count is_PeerRemoveTrack (calls_during (exec_all this ops) m)
  = (if (is_set (sender_ (self m)) && has_removal ops)%bool then 1 else 0)
  /\ count is_PeerRemoveTrack (calls_during (exec_all this ops) m) <= 1.
Proof.
  intros Ht. rewrite (calls_during_exec_all this ops m Ht), calls_of_count.
  split; [reflexivity |].
  destruct (is_set (sender_ (self m)) && has_removal ops)%bool;
    [apply le_n | apply le_S, le_n].
Qed.

Lemma client_calls_remove_track_once_witness :
  track_ (self attached_machine) = Some 1 /\
  count is_PeerRemoveTrack (calls_during (exec_all 5 sample_ops) attached_machine)
  = (if (is_set (sender_ (self attached_machine)) && has_removal sample_ops)%bool
     then 1 else 0)
  /\ count is_PeerRemoveTrack
       (calls_during (exec_all 5 sample_ops) attached_machine) <= 1.
Proof.
  split; [reflexivity |].
  exact (@client_calls_remove_track_once 5 sample_ops attached_machine 1 eq_refl).
Defined.



(** X4. After a sequence of client calls the engine's enable flag of the
    adapter's track is the argument of the last SetEnabled of the sequence,
    or what it was before when the sequence has none; removals and queries
    do not touch it; the flags of all other tracks are as before; and a
    query made next returns that flag. *)
Theorem client_calls_last_write_wins
  (this : SinkRef) (ops : list Op) (m : Machine) (t : TrackRef) :
  track_ (self m) = Some t ->
  exists m',
    exec_all this ops m = Done tt m' /\
    enabled_flag (world m') t =
      match last_set_enabled ops with
      | Some b => b
      | None => enabled_flag (world m) t
      end /\
    (forall t', t' <> t -> enabled_flag (world m') t' = enabled_flag (world m) t') /\
    IsEnabled this m' =
      Done match last_set_enabled ops with
           | Some b => b
           | None => enabled_flag (world m) t
           end m'.
Proof.
  intros Ht.
  destruct (exec_all_effect this ops m Ht) as (m' & He & Hself & _ & Hfl & Hoth).
  exists m'. split; [exact He |]. split; [exact Hfl |]. split; [exact Hoth |].
  assert (Ht' : track_ (self m') = Some t).
  { rewrite Hself.
    destruct (is_set (sender_ (self m)) && has_removal ops)%bool; exact Ht. }
  rewrite (IsEnabled_live this m' Ht'), Hfl. reflexivity.
Qed.

Lemma client_calls_last_write_wins_witness :
  track_ (self attached_machine) = Some 1 /\
  exists m',
    exec_all 5 sample_ops attached_machine = Done tt m' /\
    enabled_flag (world m') 1 =
      match last_set_enabled sample_ops with
      | Some b => b
      | None => enabled_flag (world attached_machine) 1
      end /\
    (forall t', t' <> 1 ->
       enabled_flag (world m') t' = enabled_flag (world attached_machine) t') /\
    IsEnabled 5 m' =
      Done match last_set_enabled sample_ops with
           | Some b => b
           | None => enabled_flag (world attached_machine) 1
           end m'.
Proof.
  split; [reflexivity |].
  exact (@client_calls_last_write_wins 5 sample_ops attached_machine 1 eq_refl).
Defined.

(** ** Whole lifetimes *)

(** X5. Over a whole lifetime (a construction with owner, track and sender
    all non-null, any sequence of client calls, the destruction) and for
    every implementation of the owner: the adapter's calls are one
    AddOrUpdateSink, then only calls on its own track and sender, then one
    RemoveSink; the owner's RemoveLocalVideoTrack is called, last, exactly
    when the sequence contains no removal; and when it contains one the
    destructor returns. *)
Theorem lifetime_calls
  (H : PeerConnection) (this : SinkRef) (o : OwnerRef) (t : TrackRef)
  (s : SenderRef) (h : mrsLocalVideoTrackInteropHandle) (w : World)
  (ops : list Op) :
  exists m0 m1 m2 calls,
    LocalVideoTrack_ctor this o (Some t) (Some s) h w = Done tt m0 /\
    exec_all this ops m0 = Done tt m1 /\
    final (LocalVideoTrack_dtor this m1) = Some m2 /\
    trace (world m2) =
      trace w ++
        TrackAddOrUpdateSink t this {| rotation_applied := true |} :: calls ++
        TrackRemoveSink t this ::
        (if has_removal ops then []
         else OwnerRemoveLocalVideoTrack o this ::
                fst (fst (RemoveLocalVideoTrack_impl o this (self m1)
                            (enabled_flag (world m1))))) /\
    forallb (own_call t (Some s)) calls = true /\
    LocalVideoTrack_dtor this m1 =
      (if has_removal ops then Done tt m2
       else if is_set (owner_ (self m2)) then Fatal m2 else Done tt m2).
Proof.
  rewrite ctor_live.
  match goal with
  | |- exists m0 m1 m2 calls, Done tt ?x = _ /\ _ =>
      destruct (@exec_all_effect this ops x t eq_refl)
        as (m1 & He & Hself & Htr & _);
      exists x, m1
  end.
  simpl in Hself, Htr.
  assert (Ht1 : track_ (self m1) = Some t).
  { rewrite Hself. destruct (has_removal ops); reflexivity. }
  rewrite (dtor_unfold this m1 Ht1).
  destruct (has_removal ops) eqn:Hrem.
  - assert (Ho : owner_ (self m1) = None) by (rewrite Hself; reflexivity).
    rewrite Ho. eexists. exists (calls_of t (Some s) ops).
    split; [reflexivity |]. split; [exact He |].
    split; [reflexivity |]. simpl. rewrite Htr.
    split; [| split; [apply calls_of_own | reflexivity]].
    rewrite <- !app_assoc. reflexivity.
  - assert (Ho : owner_ (self m1) = Some o) by (rewrite Hself; reflexivity).
    rewrite Ho. cbv zeta.
    destruct (RemoveLocalVideoTrack_impl o this (self m1) (enabled_flag (world m1)))
      as [[calls' a] fl].
    simpl. destruct (owner_ a) as [o' |] eqn:Ho'; simpl;
      eexists; exists (calls_of t (Some s) ops);
      (split; [reflexivity |]); (split; [exact He |]);
      (split; [reflexivity |]); simpl; rewrite Ho'; simpl; rewrite Htr;
      (split; [| split; [apply calls_of_own | reflexivity]]);
      rewrite <- !app_assoc; reflexivity.
Qed.

(** X6. When the owner's RemoveLocalVideoTrack always hands the adapter back
    with its owner reference null, the destructor of an adapter with a live
    track never aborts: it returns, with the owner reference null, and its
    first call is RemoveSink on the track. *)
Theorem dtor_returns_under_contract
  (H : PeerConnection) (this : SinkRef) (m : Machine) (t : TrackRef) :
  (forall o v a fl,
     owner_ (snd (fst (RemoveLocalVideoTrack_impl o v a fl))) = None) ->
  track_ (self m) = Some t ->
  exists m' rest,
    LocalVideoTrack_dtor this m = Done tt m' /\
    owner_ (self m') = None /\
    calls_during (LocalVideoTrack_dtor this) m = TrackRemoveSink t this :: rest.
Proof.
  intros Hc Ht. unfold calls_during. rewrite (dtor_unfold this m Ht).
  destruct (owner_ (self m)) as [o |] eqn:Ho.
  - cbv zeta. rewrite (Hc o this (self m) (enabled_flag (world m))). simpl.
    eexists. eexists. split; [reflexivity |]. simpl.
    split; [apply Hc |].
    rewrite <- app_assoc. apply skipn_length_app.
  - eexists. eexists. split; [reflexivity |]. simpl.
    split; [exact Ho | apply skipn_length_app].
Qed.

Lemma dtor_returns_under_contract_witness :
  (forall o v a fl,
     owner_ (snd (fst (@RemoveLocalVideoTrack_impl contract_PeerConnection
                         o v a fl))) = None) /\
  track_ (self attached_machine) = Some 1 /\
  exists m' rest,
    @LocalVideoTrack_dtor contract_PeerConnection 5 attached_machine = Done tt m' /\
    owner_ (self m') = None /\
    calls_during (@LocalVideoTrack_dtor contract_PeerConnection 5) attached_machine
    = TrackRemoveSink 1 5 :: rest.
Proof.
  split; [intros o v a fl; reflexivity |].
  split; [reflexivity |].
  exact (@dtor_returns_under_contract contract_PeerConnection 5 attached_machine 1
           (fun _ _ _ _ => eq_refl) eq_refl).
Defined.

(** X7. With an owner that removes the track by calling the adapter's own
    RemoveFromPeerConnection, the destructor of an adapter with a live track
    and the owner reference set: when the sender is set, calls RemoveSink,
    the owner's RemoveLocalVideoTrack and the engine's RemoveTrack, in this
    order, and returns with sender and owner null; when the sender is null,
    aborts on its final check after the first two calls, the members
    untouched. *)
Theorem dtor_with_delegating_owner
  (peer : PeerRef) (this : SinkRef) (m : Machine) (t : TrackRef) (o : OwnerRef) :
  track_ (self m) = Some t ->
  owner_ (self m) = Some o ->
  match sender_ (self m) with
  | Some s =>
      exists m',
        @LocalVideoTrack_dtor (delegating_PeerConnection peer) this m = Done tt m' /\
        trace (world m') =
          trace (world m) ++
            [TrackRemoveSink t this; OwnerRemoveLocalVideoTrack o this;
             PeerRemoveTrack peer s] /\
        sender_ (self m') = None /\
        owner_ (self m') = None /\
        enabled_flag (world m') = enabled_flag (world m)
  | None =>
      exists m',
        @LocalVideoTrack_dtor (delegating_PeerConnection peer) this m = Fatal m' /\
        trace (world m') =
          trace (world m) ++
            [TrackRemoveSink t this; OwnerRemoveLocalVideoTrack o this] /\
        self m' = self m
  end.
Proof.
  intros Ht Ho.
  rewrite (@dtor_unfold (delegating_PeerConnection peer) this m t Ht), Ho.
  cbv zeta. unfold RemoveLocalVideoTrack_impl, delegating_PeerConnection.
  destruct (sender_ (self m)) as [s |] eqn:Hs.
  - rewrite (@RemoveFromPeerConnection_present this peer _ s) by exact Hs.
    simpl. eexists. split; [reflexivity |]. simpl.
    rewrite <- app_assoc. auto.
  - rewrite (@RemoveFromPeerConnection_absent this peer _) by exact Hs.
    simpl. rewrite Ho. simpl. eexists. split; [reflexivity |]. simpl.
    rewrite <- app_assoc. auto.
Qed.

Lemma dtor_with_delegating_owner_witness :
  track_ (self attached_machine) = Some 1 /\
  owner_ (self attached_machine) = Some 9 /\
  match sender_ (self attached_machine) with
  | Some s =>
      exists m',
        @LocalVideoTrack_dtor (delegating_PeerConnection 7) 5 attached_machine
        = Done tt m' /\
        trace (world m') =
          trace (world attached_machine) ++
            [TrackRemoveSink 1 5; OwnerRemoveLocalVideoTrack 9 5;
             PeerRemoveTrack 7 s] /\
        sender_ (self m') = None /\
        owner_ (self m') = None /\
        enabled_flag (world m') = enabled_flag (world attached_machine)
  | None =>
      exists m',
        @LocalVideoTrack_dtor (delegating_PeerConnection 7) 5 attached_machine
        = Fatal m' /\
        trace (world m') =
          trace (world attached_machine) ++
            [TrackRemoveSink 1 5; OwnerRemoveLocalVideoTrack 9 5] /\
        self m' = self attached_machine
  end.
Proof.
  split; [reflexivity |]. split; [reflexivity |].
  exact (@dtor_with_delegating_owner 7 5 attached_machine 1 9 eq_refl eq_refl).
Defined.
